(* Shallow embedding of src/content.js (Meet Scribe Pro): the caption
   parser, the reconciliation loop of processCaptions, the session
   lifecycle (init, handleNavigation, the "clear" message) and the
   throttled storage flush. *)

From Stdlib Require Import String Ascii Bool.
From stdpp Require Import base gmap strings list.

Open Scope string_scope.
#[local] Set Warnings "-register-all".

(* ─── Data model ──────────────────────────────────────────────────────── *)

(** A transcript entry `{ ts, speaker, text }`. *)
Record Entry := mkEntry { ts : string; speaker : string; text : string }.

(** A parsed caption pair `{ speaker, text }`. *)
Record Parsed := mkParsed { p_speaker : string; p_text : string }.

(** The two keys of chrome.storage.local the script uses;
    [None] means the key is absent. *)
Record Storage := mkStorage {
  current_meeting_transcript : option (list Entry);
  current_meeting_id : option string }.

(** A DOM tree: text nodes and elements with their child nodes. *)
Inductive Node :=
| TextNode (s : string)
| Element (kids : list Node).

(** What [state.observer] watches. *)
Inductive Observer :=
| NoObserver
| BodyObserver
| NarrowObserver (container : Node).

(** The module state: the [state] object, the module-level
    [narrowObserverAttached] latch, and the durable storage.
    [lastBySpeaker] is the plain object `state.lastBySpeaker` given by its
    own properties (all strings); its prototype is Object.prototype, and the
    code reads and writes it through [obj_get] and [obj_set] below. *)
Record St := mkSt {
  transcript : list Entry;
  lastBySpeaker : gmap string string;
  meetingId : string;
  observer : Observer;
  storageFlushTimer : bool;
  narrowObserverAttached : bool;
  storage : Storage }.

Definition set_session (tr : list Entry) (lbs : gmap string string) (s : St) : St :=
  mkSt tr lbs (meetingId s) (observer s) (storageFlushTimer s)
       (narrowObserverAttached s) (storage s).

(* ─── The plain object state.lastBySpeaker ────────────────────────────── *)

(** A value read from a plain object: a string, `undefined`, or an object or
    function inherited from Object.prototype, with the string ToString gives
    for it. *)
Inductive JSVal :=
| JUndefined
| JString (s : string)
| JObject (tostr : string).

(** JS truthiness (`prev && ...`). *)
Definition js_truthy (v : JSVal) : bool :=
  match v with
  | JUndefined => false
  | JString s => negb (String.eqb s "")
  | JObject _ => true
  end.

(** ToString, as `text.startsWith(prev)` applies it to its argument. *)
Definition js_ToString (v : JSVal) : string :=
  match v with
  | JUndefined => "undefined"
  | JString s => s
  | JObject t => t
  end.

(** `text === prev` for a string [text]. *)
Definition js_strict_eq (txt : string) (v : JSVal) : bool :=
  match v with
  | JString q => String.eqb txt q
  | _ => false
  end.

(** The source text V8 gives for a built-in function. *)
Definition native_fn (name : string) : string :=
  "function " ++ name ++ "() { [native code] }".

(** `Object.prototype[k]`: the `__proto__` accessor returns Object.prototype
    itself; the other members are built-in functions. *)
Definition object_prototype_member (k : string) : JSVal :=
  if String.eqb k "__proto__" then JObject "[object Object]"
  else if String.eqb k "constructor" then JObject (native_fn "Object")
  else if existsb (String.eqb k)
            ["__defineGetter__"; "__defineSetter__"; "hasOwnProperty";
             "__lookupGetter__"; "__lookupSetter__"; "isPrototypeOf";
             "propertyIsEnumerable"; "toString"; "valueOf"; "toLocaleString"]
       then JObject (native_fn k)
  else JUndefined.

(** `obj[k]`: an own property, else the member of Object.prototype. *)
Definition obj_get (m : gmap string string) (k : string) : JSVal :=
  match m !! k with
  | Some v => JString v
  | None => object_prototype_member k
  end.

(** `obj[k] = v` with a string [v]: an own property is overwritten; without
    one, the inherited `__proto__` setter ignores a value that is not an
    object, and any other name (the inherited members are writable data
    properties) gets a new own property. *)
Definition obj_set (k v : string) (m : gmap string string) : gmap string string :=
  match m !! k with
  | Some _ => <[k := v]> m
  | None => if String.eqb k "__proto__" then m else <[k := v]> m
  end.

(* ─── String helpers (JS semantics on 8-bit code units) ───────────────── *)

(** JS `\s` and the characters `trim` removes, on code units below 256:
    tab, line feed, vertical tab, form feed, carriage return, space and
    no-break space (U+00A0). *)
Definition is_ws (c : ascii) : bool :=
  let n := nat_of_ascii c in
  (Nat.eqb n 32 || Nat.eqb n 9 || Nat.eqb n 10 || Nat.eqb n 11
   || Nat.eqb n 12 || Nat.eqb n 13 || Nat.eqb n 160)%bool.

Fixpoint trim_start (s : string) : string :=
  match s with
  | EmptyString => EmptyString
  | String c r => if is_ws c then trim_start r else s
  end.

Fixpoint rev_str (s : string) (acc : string) : string :=
  match s with
  | EmptyString => acc
  | String c r => rev_str r (String c acc)
  end.

(** `s.trim()` *)
Definition js_trim (s : string) : string :=
  rev_str (trim_start (rev_str (trim_start s) EmptyString)) EmptyString.

(** `s.replace(/\s+/g, " ")`: every maximal run of whitespace becomes one
    space ([in_ws] records that the previous character was whitespace). *)
Fixpoint collapse_ws (in_ws : bool) (s : string) : string :=
  match s with
  | EmptyString => EmptyString
  | String c r =>
      if is_ws c then (if in_ws then collapse_ws true r
                       else String " " (collapse_ws true r))
      else String c (collapse_ws false r)
  end.

(** `s.replace(/\s+/g, " ").trim()` *)
Definition normalize (s : string) : string := js_trim (collapse_ws false s).

(** `parts.join(sep)` *)
Fixpoint join (sep : string) (parts : list string) : string :=
  match parts with
  | [] => EmptyString
  | [p] => p
  | p :: r => String.append p (String.append sep (join sep r))
  end.

(** `text.startsWith(prev)` *)
Definition startsWith (text prev : string) : bool := String.prefix prev text.

(* ─── DOM reads ───────────────────────────────────────────────────────── *)

Fixpoint textContent (n : Node) : string :=
  match n with
  | TextNode s => s
  | Element kids =>
      (fix go (ks : list Node) : string :=
         match ks with
         | [] => EmptyString
         | k :: r => String.append (textContent k) (go r)
         end) kids
  end.

Definition is_element (n : Node) : bool :=
  match n with Element _ => true | TextNode _ => false end.

(** `el.children`: the element children only. *)
Definition children (n : Node) : list Node :=
  match n with
  | Element kids => List.filter is_element kids
  | TextNode _ => []
  end.

(* ─── Helpers of content.js ───────────────────────────────────────────── *)

Definition is_letter (c : ascii) : bool :=
  let n := nat_of_ascii c in
  ((Nat.leb 97 n && Nat.leb n 122) || (Nat.leb 65 n && Nat.leb n 90))%bool.

(** The maximal run of letters at the head of [s], and the rest. *)
Fixpoint letters (s : string) : string * string :=
  match s with
  | String c r =>
      if is_letter c then let '(l, rest) := letters r in (String c l, rest)
      else (EmptyString, s)
  | EmptyString => (EmptyString, EmptyString)
  end.

(** `/\/([a-z]+-[a-z]+-[a-z]+)/i` anchored at the head of [s]; returns the
    capture group.  Each `[a-z]+` is followed by `-` or is the last one, so
    the greedy maximal run is the only run that can match. *)
Definition match_here (s : string) : option string :=
  match s with
  | String "/" r =>
      let '(l1, r1) := letters r in
      if String.eqb l1 "" then None else
      match r1 with
      | String "-" r2 =>
          let '(l2, r3) := letters r2 in
          if String.eqb l2 "" then None else
          match r3 with
          | String "-" r4 =>
              let '(l3, _) := letters r4 in
              if String.eqb l3 "" then None
              else Some (String.append l1 (String "-"
                          (String.append l2 (String "-" l3))))
          | _ => None
          end
      | _ => None
      end
  | _ => None
  end.

(** `pathname.match(re)`: leftmost match. *)
Fixpoint regex_match (s : string) : option string :=
  match match_here s with
  | Some m => Some m
  | None => match s with
            | EmptyString => None
            | String _ r => regex_match r
            end
  end.

(** getMeetingId, with [location.pathname] as argument. *)
Definition getMeetingId (pathname : string) : string :=
  match regex_match pathname with
  | Some m => m
  | None => pathname
  end.

(** scheduleStorageFlush: arms the 2 s timer unless it is armed. *)
Definition scheduleStorageFlush (s : St) : St :=
  if storageFlushTimer s then s
  else mkSt (transcript s) (lastBySpeaker s) (meetingId s) (observer s)
            true (narrowObserverAttached s) (storage s).

(** The flush timer firing: writes transcript and meeting id. *)
Definition storageFlushFire (s : St) : St :=
  if storageFlushTimer s then
    mkSt (transcript s) (lastBySpeaker s) (meetingId s) (observer s)
         false (narrowObserverAttached s)
         (mkStorage (Some (transcript s)) (Some (meetingId s)))
  else s.

(** getCaptionContainer: the first `div[aria-live="polite"]` whose
    innerText is non-blank; candidates come with their innerText. *)
Fixpoint getCaptionContainer (candidates : list (Node * string)) : option Node :=
  match candidates with
  | [] => None
  | (el, innerText) :: r =>
      if negb (String.eqb (js_trim innerText) "") then Some el
      else getCaptionContainer r
  end.

(* ─── Caption parsing ─────────────────────────────────────────────────── *)

(** The body of the block loop of parseCaptions: [None] is `continue` or
    a dropped block. *)
Definition parseBlock (block : Node) : option Parsed :=
  match children block with
  | speakerEl :: ((_ :: _) as rest) =>
      let speakerName :=
        let t := js_trim (textContent speakerEl) in
        if String.eqb t "" then "Unknown" else t in
      let textParts := join " " (map textContent rest) in
      let txt := normalize textParts in
      if String.eqb txt "" then None else Some (mkParsed speakerName txt)
  | _ => None
  end.

Fixpoint parseBlocks (blocks : list Node) : list Parsed :=
  match blocks with
  | [] => []
  | b :: r =>
      match parseBlock b with
      | Some p => p :: parseBlocks r
      | None => parseBlocks r
      end
  end.

Definition parseCaptions (container : Node) : list Parsed :=
  match parseBlocks (children container) with
  | [] =>
      let fallback := normalize (textContent container) in
      if String.eqb fallback "" then [] else [mkParsed "System" fallback]
  | results => results
  end.

(* ─── Core processing ─────────────────────────────────────────────────── *)

(** `state.transcript[state.transcript.length - 1]` *)
Fixpoint last_entry (tr : list Entry) : option Entry :=
  match tr with
  | [] => None
  | [e] => Some e
  | _ :: r => last_entry r
  end.

(** `last.text = text; last.ts = now` on the last entry. *)
Fixpoint set_last_entry (now txt : string) (tr : list Entry) : list Entry :=
  match tr with
  | [] => []
  | [e] => [mkEntry now (speaker e) txt]
  | e :: r => e :: set_last_entry now txt r
  end.

(** `prev && transcript.length > 0 && text.startsWith(prev) &&
     transcript[transcript.length - 1].speaker === speaker` *)
Definition isContinuation (s : St) (spk txt : string) (prev : JSVal) : bool :=
  js_truthy prev && negb (Nat.eqb (length (transcript s)) 0)
  && startsWith txt (js_ToString prev)
  && match last_entry (transcript s) with
     | Some e => String.eqb (speaker e) spk
     | None => false
     end.

(** One iteration of the `for (const { speaker, text } of entries)` loop of
    processCaptions; [now] is `formatTime(new Date())`. *)
Definition processEntry (now : string) (acc : St * bool) (p : Parsed) : St * bool :=
  let '(s, changed) := acc in
  let spk := p_speaker p in
  let txt := p_text p in
  let prev := obj_get (lastBySpeaker s) spk in
  if (String.eqb txt "" || js_strict_eq txt prev)%bool
  then (s, changed)
  else
    let tr' :=
      if isContinuation s spk txt prev
      then set_last_entry now txt (transcript s)
      else (transcript s ++ [mkEntry now spk txt])%list in
    (set_session tr' (obj_set spk txt (lastBySpeaker s)) s, true).

(** The reconciliation loop, returning the new state and `changed`. *)
Definition reconcile (now : string) (entries : list Parsed) (s : St) : St * bool :=
  fold_left (processEntry now) entries (s, false).

Definition processCaptions (now : string) (cands : list (Node * string)) (s : St) : St :=
  match getCaptionContainer cands with
  | None => s
  | Some container =>
      let '(s', changed) := reconcile now (parseCaptions container) s in
      if changed then scheduleStorageFlush s' else s'
  end.

(* ─── Observer lifecycle and session ──────────────────────────────────── *)

Definition tryNarrowObserver (cands : list (Node * string)) (s : St) : St :=
  if narrowObserverAttached s then s
  else match getCaptionContainer cands with
       | None => s
       | Some container =>
           mkSt (transcript s) (lastBySpeaker s) (meetingId s)
                (NarrowObserver container) (storageFlushTimer s) true (storage s)
       end.

(** init, with the storage read of its restore callback taken at startup. *)
Definition init (pathname : string) (stored : Storage)
    (cands : list (Node * string)) : St :=
  let mid := getMeetingId pathname in
  let tr :=
    match current_meeting_id stored, current_meeting_transcript stored with
    | Some i, Some t => if String.eqb i mid then t else []
    | _, _ => []
    end in
  tryNarrowObserver cands (mkSt tr ∅ mid BodyObserver false false stored).

Definition handleNavigation (pathname : string) (cands : list (Node * string))
    (s : St) : St :=
  let newId := getMeetingId pathname in
  if String.eqb newId (meetingId s) then s
  else
    tryNarrowObserver cands
      (mkSt [] ∅ newId (observer s) (storageFlushTimer s) false
            (mkStorage None None)).

(** The "clear" message. *)
Definition clearTranscript (s : St) : St :=
  mkSt [] ∅ (meetingId s) (observer s) (storageFlushTimer s)
       (narrowObserverAttached s)
       (mkStorage None (current_meeting_id (storage s))).

(** The events the script reacts to after init. *)
Inductive Event :=
| BodyMutation (cands : list (Node * string))        (* broad observer *)
| DebounceFired (now : string) (cands : list (Node * string))
| NavigationPoll (pathname : string) (cands : list (Node * string))
| FlushTimerFired
| ClearMessage
| GetTranscriptMessage.

Definition step (s : St) (ev : Event) : St :=
  match ev with
  | BodyMutation cands =>
      match observer s with
      | BodyObserver => tryNarrowObserver cands s
      | _ => s
      end
  | DebounceFired now cands => processCaptions now cands s
  | NavigationPoll pathname cands => handleNavigation pathname cands s
  | FlushTimerFired => storageFlushFire s
  | ClearMessage => clearTranscript s
  | GetTranscriptMessage => s
  end.

Definition run (s : St) (evs : list Event) : St := fold_left step evs s.

(* ─── Observations used in the statements ─────────────────────────────── *)






(** [new] keeps every entry of [old] but the last, in order, and is not
    shorter. *)
Definition transcript_extends (old new : list Entry) : Prop :=
  exists rest, new = (removelast old ++ rest)%list /\ length old <= length new.

(** Events that may empty the transcript: clear, and a poll that sees a
    different meeting id. *)
Definition resets_transcript (s : St) (ev : Event) : bool :=
  match ev with
  | ClearMessage => true
  | NavigationPoll pathname _ =>
      negb (String.eqb (getMeetingId pathname) (meetingId s))
  | _ => false
  end.

(** A caption region with one speaker block, as a locator candidate. *)
Definition one_block (spk txt : string) : list (Node * string) :=
  [(Element [Element [Element [TextNode spk]; Element [TextNode txt]]],
    String.append spk (String.append " " txt))].

Definition fresh_state : St := init "/abc-defg-hij" (mkStorage None None) [].

(* ─── Lemmas ──────────────────────────────────────────────────────────── *)

Lemma last_entry_snoc (l : list Entry) (e : Entry) :
  last_entry (l ++ [e])%list = Some e.
Proof.
  induction l as [|x l IH]; [reflexivity|].
  simpl. destruct (l ++ [e])%list eqn:E; [destruct l; discriminate|]. exact IH.
Qed.

Lemma last_entry_split (tr : list Entry) (x : Entry) :
  last_entry tr = Some x -> tr = (removelast tr ++ [x])%list.
Proof.
  induction tr as [|y r IH]; [discriminate|].
  destruct r as [|z r]; simpl.
  - intros H. injection H as ->. reflexivity.
  - intros H. f_equal. apply IH. exact H.
Qed.

Lemma set_last_entry_split (now txt : string) (tr : list Entry) (x : Entry) :
  last_entry tr = Some x ->
  set_last_entry now txt tr = (removelast tr ++ [mkEntry now (speaker x) txt])%list.
Proof.
  induction tr as [|y r IH]; [discriminate|].
  destruct r as [|z r]; simpl.
  - intros H. injection H as ->. reflexivity.
  - intros H. f_equal. apply IH. exact H.
Qed.

Lemma last_entry_None (tr : list Entry) : last_entry tr = None -> tr = [].
Proof.
  induction tr as [|y r IH]; [reflexivity|].
  destruct r; simpl; [discriminate|]. intros H. specialize (IH H). discriminate.
Qed.


Lemma object_prototype_member_not_string (k txt : string) :
  js_strict_eq txt (object_prototype_member k) = false.
Proof.
  unfold object_prototype_member.
  destruct (String.eqb k "__proto__"); [reflexivity|].
  destruct (String.eqb k "constructor"); [reflexivity|].
  destruct (existsb _ _); reflexivity.
Qed.

Lemma js_strict_eq_obj_get (m : gmap string string) (k txt : string) :
  js_strict_eq txt (obj_get m k) = match m !! k with
                                   | Some q => String.eqb txt q
                                   | None => false
                                   end.
Proof.
  unfold obj_get. destruct (m !! k); [reflexivity|].
  apply object_prototype_member_not_string.
Qed.

Lemma obj_get_own (m : gmap string string) (k v : string) :
  m !! k = Some v -> obj_get m k = JString v.
Proof. intros H. unfold obj_get. rewrite H. reflexivity. Qed.

Lemma obj_get_string (m : gmap string string) (k v : string) :
  obj_get m k = JString v -> m !! k = Some v.
Proof.
  unfold obj_get. destruct (m !! k) as [q|]; [congruence|].
  intros H. pose proof (object_prototype_member_not_string k v) as N.
  rewrite H in N. cbn in N. rewrite String.eqb_refl in N. discriminate.
Qed.




Lemma processEntry_cases (now : string) (s : St) (c : bool) (p : Parsed) :
  (processEntry now (s, c) p = (s, c)
   /\ (p_text p = "" \/ lastBySpeaker s !! p_speaker p = Some (p_text p)))
  \/ (p_text p <> "" /\ lastBySpeaker s !! p_speaker p <> Some (p_text p)
      /\ ((isContinuation s (p_speaker p) (p_text p)
             (obj_get (lastBySpeaker s) (p_speaker p)) = true
           /\ processEntry now (s, c) p =
              (set_session (set_last_entry now (p_text p) (transcript s))
                           (obj_set (p_speaker p) (p_text p) (lastBySpeaker s)) s, true))
          \/ (isContinuation s (p_speaker p) (p_text p)
                (obj_get (lastBySpeaker s) (p_speaker p)) = false
              /\ processEntry now (s, c) p =
                 (set_session (transcript s ++ [mkEntry now (p_speaker p) (p_text p)])%list
                              (obj_set (p_speaker p) (p_text p) (lastBySpeaker s)) s, true)))).
Proof.
  destruct p as [spk txt]. unfold processEntry. cbn -[isContinuation obj_get].
  rewrite js_strict_eq_obj_get.
  destruct (String.eqb txt "") eqn:Ee.
  - left. split; [reflexivity|]. left. apply String.eqb_eq. exact Ee.
  - destruct (lastBySpeaker s !! spk) as [q|] eqn:Eq; cbn -[isContinuation obj_get].
    + destruct (String.eqb txt q) eqn:Etq.
      * left. split; [reflexivity|]. right. apply String.eqb_eq in Etq. subst. reflexivity.
      * right. split; [intros H; subst; discriminate|].
        split; [intros H; injection H as ->; rewrite String.eqb_refl in Etq; discriminate|].
        destruct (isContinuation s spk txt (obj_get (lastBySpeaker s) spk)); [left|right]; auto.
    + right. split; [intros H; subst; discriminate|]. split; [discriminate|].
      destruct (isContinuation s spk txt (obj_get (lastBySpeaker s) spk)); [left|right]; auto.
Qed.

Lemma isContinuation_true (s : St) (spk txt : string) (prev : JSVal) :
  isContinuation s spk txt prev = true ->
  exists x, js_truthy prev = true /\ startsWith txt (js_ToString prev) = true
            /\ last_entry (transcript s) = Some x /\ speaker x = spk.
Proof.
  unfold isContinuation.
  destruct (last_entry (transcript s)) as [x|] eqn:Ex;
    [|rewrite !andb_false_r; discriminate].
  intros H. apply andb_prop in H as [H H4]. apply andb_prop in H as [H H3].
  apply andb_prop in H as [H1 _].
  exists x. repeat split; auto. apply String.eqb_eq. exact H4.
Qed.

(** A pair that is new and fails the continuation test is appended. *)
Lemma processEntry_append (now : string) (s : St) (c : bool) (S t : string) :
  t <> "" -> lastBySpeaker s !! S <> Some t ->
  isContinuation s S t (obj_get (lastBySpeaker s) S) = false ->
  processEntry now (s, c) (mkParsed S t) =
    (set_session (transcript s ++ [mkEntry now S t])%list
                 (obj_set S t (lastBySpeaker s)) s, true).
Proof.
  intros Ht Hne Hc.
  destruct (processEntry_cases now s c (mkParsed S t))
    as [[_ [H|H]] | [_ [_ [[H _]|[_ ->]]]]]; cbn [p_speaker p_text] in *;
    [contradiction|contradiction|congruence|reflexivity].
Qed.

(* ─── Claims ──────────────────────────────────────────────────────────── *)

(** C1: from an empty session, the snapshots [Alice "Hi"], [Alice "Hi
    there"], [Bob "Hey"], [Alice "Hi there everyone"] fed to four reconcile
    calls give exactly the transcript Alice "Hi there", Bob "Hey", Alice "Hi
    there everyone" (the first entry amended in place at the second call). *)
Theorem end_to_end_scenario (s : St) (n1 n2 n3 n4 : string) :
  let s0 := set_session [] ∅ s in
  let s1 := fst (reconcile n1 [mkParsed "Alice" "Hi"] s0) in
  let s2 := fst (reconcile n2 [mkParsed "Alice" "Hi there"] s1) in
  let s3 := fst (reconcile n3 [mkParsed "Bob" "Hey"] s2) in
  let s4 := fst (reconcile n4 [mkParsed "Alice" "Hi there everyone"] s3) in
  transcript s4 = [mkEntry n2 "Alice" "Hi there"; mkEntry n3 "Bob" "Hey";
                   mkEntry n4 "Alice" "Hi there everyone"].
Proof. vm_compute. reflexivity. Qed.

(** C4: when the last entry is speaker [S]'s and lastBySpeaker[S] is
    "Hello", reconciling the single pair [S] "Hello world" amends the last
    entry in place (text "Hello world", timestamp [now]): the entry count is
    unchanged, the earlier entries are kept, and [changed] is true. *)
Theorem continuation_law (s : St) (now S : string) (x : Entry) :
  last_entry (transcript s) = Some x -> speaker x = S ->
  lastBySpeaker s !! S = Some "Hello" ->
  let '(s', changed) := reconcile now [mkParsed S "Hello world"] s in
  changed = true /\ length (transcript s') = length (transcript s)
  /\ removelast (transcript s') = removelast (transcript s)
  /\ last_entry (transcript s') = Some (mkEntry now S "Hello world").
Proof.
  intros Hx Hsp Hprev. unfold reconcile. cbn [fold_left].
  destruct (processEntry_cases now s false (mkParsed S "Hello world"))
    as [[_ [Hc|Hc]] | [_ [_ [[_ ->]|[Hc _]]]]]; cbn [p_speaker p_text] in *.
  - discriminate.
  - rewrite Hprev in Hc. discriminate.
  - unfold set_session; cbn [transcript].
    rewrite (set_last_entry_split _ _ _ _ Hx), Hsp.
    set (r := removelast (transcript s)).
    assert (Etr : transcript s = (r ++ [x])%list) by exact (last_entry_split _ _ Hx).
    rewrite Etr, !length_app, !removelast_app by discriminate.
    cbn [removelast length]. rewrite !app_nil_r.
    repeat split. apply last_entry_snoc.
  - exfalso. revert Hc. rewrite (obj_get_own _ _ _ Hprev). unfold isContinuation.
    rewrite Hx, Hsp, String.eqb_refl.
    intros H. rewrite (last_entry_split _ _ Hx), length_app, Nat.add_comm in H.
    cbn in H. discriminate.
Qed.

(** C5: a pair [S], [t] with [t] non-empty and different from
    lastBySpeaker[S] that fails the continuation test ([t] does not start
    with lastBySpeaker[S], or lastBySpeaker[S] is undefined, or the last
    entry is not [S]'s) appends the entry [now], [S], [t] after the untouched
    earlier entries, and writes [t] to lastBySpeaker[S].  lastBySpeaker[S] is
    the JS read [obj_get]: an own property, or else what Object.prototype
    has under that name, taken through ToString by `startsWith`. *)
Theorem turn_break_append (s : St) (now S t : string) (c : bool) :
  t <> "" -> obj_get (lastBySpeaker s) S <> JString t ->
  (startsWith t (js_ToString (obj_get (lastBySpeaker s) S)) = false
   \/ obj_get (lastBySpeaker s) S = JUndefined
   \/ (forall x, last_entry (transcript s) = Some x -> speaker x <> S)) ->
  processEntry now (s, c) (mkParsed S t) =
    (set_session (transcript s ++ [mkEntry now S t])%list
                 (obj_set S t (lastBySpeaker s)) s, true).
Proof.
  intros Ht Hne Hfail. apply processEntry_append; [exact Ht| |].
  - intros H. apply Hne. apply obj_get_own. exact H.
  - destruct (isContinuation s S t (obj_get (lastBySpeaker s) S)) eqn:Hc; [|reflexivity].
    exfalso. apply isContinuation_true in Hc as (x & Htr & Hst & Hx & Hsx).
    destruct Hfail as [H|[H|H]].
    + congruence.
    + rewrite H in Htr. discriminate.
    + exact (H x Hx Hsx).
Qed.



(** C8: the navigation poll; when the freshly derived meeting id differs from
    the stored one, the transcript and lastBySpeaker are emptied, the new id
    is adopted, both storage keys are removed and the narrowing latch is
    reset, so that the latch and the narrow observer follow the container
    located now; when the id is unchanged the state is untouched. *)
Theorem navigation_reset (pathname : string) (cands : list (Node * string)) (s : St) :
  let s' := handleNavigation pathname cands s in
  if String.eqb (getMeetingId pathname) (meetingId s) then s' = s
  else transcript s' = [] /\ lastBySpeaker s' = ∅
       /\ meetingId s' = getMeetingId pathname
       /\ storage s' = mkStorage None None
       /\ narrowObserverAttached s' = match getCaptionContainer cands with
                                       | Some _ => true
                                       | None => false
                                       end
       /\ observer s' = match getCaptionContainer cands with
                        | Some c => NarrowObserver c
                        | None => observer s
                        end.
Proof.
  unfold handleNavigation. destruct (String.eqb (getMeetingId pathname) (meetingId s));
    [reflexivity|].
  unfold tryNarrowObserver. cbn [narrowObserverAttached].
  destruct (getCaptionContainer cands); repeat split.
Qed.

Lemma parseBlocks_nil (blocks : list Node) :
  (forall b, In b blocks -> parseBlock b = None) -> parseBlocks blocks = [].
Proof.
  induction blocks as [|b r IH]; intros H; [reflexivity|].
  cbn. rewrite (H b (or_introl eq_refl)). apply IH. intros b' Hb'. apply H. right. exact Hb'.
Qed.

(** C9: when no block of the region is well formed (fewer than two child
    elements, or an empty normalized text), parse returns the single entry
    "System" with the region's whole normalized text if that is non-empty,
    and the empty sequence otherwise. *)
Theorem parse_fallback (container : Node) :
  (forall b, In b (children container) ->
     length (children b) < 2
     \/ normalize (join " " (map textContent (tl (children b)))) = "") ->
  (normalize (textContent container) <> "" ->
     parseCaptions container = [mkParsed "System" (normalize (textContent container))])
  /\ (normalize (textContent container) = "" -> parseCaptions container = []).
Proof.
  intros Hblocks. unfold parseCaptions.
  rewrite parseBlocks_nil.
  2:{ intros b Hb. destruct (Hblocks b Hb) as [Hl|Hn]; unfold parseBlock;
      destruct (children b) as [|sp [|y r]]; try reflexivity.
      - cbn in Hl. lia.
      - cbn in Hn. cbn. rewrite Hn. reflexivity. }
  split; intros H.
  - destruct (String.eqb (normalize (textContent container)) "") eqn:E;
      [apply String.eqb_eq in E; contradiction|reflexivity].
  - rewrite H. reflexivity.
Qed.

(* ─── The lastBySpeaker cache invariant ───────────────────────────────── *)

Section CacheInvariant.

Variable S : string.








End CacheInvariant.



(* ─── The tail of the transcript and the continuation test ───────────── *)








(* ─── Idempotence of reconcile ────────────────────────────────────────── *)





Lemma reconcile_all_skip (now : string) (es : list Parsed) (s : St) (c : bool) :
  (forall p, In p es -> p_text p = "" \/ lastBySpeaker s !! p_speaker p = Some (p_text p)) ->
  fold_left (processEntry now) es (s, c) = (s, c).
Proof.
  induction es as [|p r IH]; intros H; [reflexivity|].
  cbn [fold_left].
  destruct (processEntry_cases now s c p) as [[-> _] | [Hne [Hprev _]]].
  - apply IH. intros q Hq. apply H. right. exact Hq.
  - exfalso. destruct (H p (or_introl eq_refl)); contradiction.
Qed.




(* ─── The frame of reconcile on the transcript ────────────────────────── *)

Lemma transcript_extends_refl (tr : list Entry) : transcript_extends tr tr.
Proof.
  destruct (last_entry tr) as [x|] eqn:Hx.
  - exists [x]. split; [exact (last_entry_split _ _ Hx)|lia].
  - apply last_entry_None in Hx as ->. exists []. split; [reflexivity|lia].
Qed.

Lemma transcript_extends_trans (a b c : list Entry) :
  transcript_extends a b -> transcript_extends b c -> transcript_extends a c.
Proof.
  intros [r1 [-> H1]] [r2 [-> H2]].
  destruct r1 as [|y r1].
  - destruct a as [|z a]; [exists r2; split; [reflexivity|cbn in *; lia]|].
    exfalso. rewrite app_nil_r in H1.
    assert (Ea : z :: a = (removelast (z :: a) ++ [List.last (z :: a) z])%list)
      by (apply app_removelast_last; discriminate).
    assert (El : length (z :: a) = S (length (removelast (z :: a)))).
    { rewrite Ea at 1. rewrite length_app. cbn. lia. }
    lia.
  - rewrite removelast_app in * by discriminate.
    exists (removelast (y :: r1) ++ r2)%list. rewrite app_assoc. split; [reflexivity|].
    rewrite !length_app in *. lia.
Qed.

Lemma transcript_extends_processEntry (now : string) (s : St) (c : bool) (p : Parsed) :
  transcript_extends (transcript s) (transcript (fst (processEntry now (s, c) p))).
Proof.
  destruct (processEntry_cases now s c p)
    as [[-> _] | [_ [_ [[Hc ->]|[_ ->]]]]]; cbn [fst];
    [apply transcript_extends_refl| |]; unfold set_session; cbn [transcript].
  - apply isContinuation_true in Hc as (x & _ & _ & Hx & _).
    rewrite (set_last_entry_split _ _ _ _ Hx).
    eexists; split; [reflexivity|].
    rewrite (last_entry_split _ _ Hx) at 1. rewrite !length_app. cbn. lia.
  - destruct (last_entry (transcript s)) as [x|] eqn:Hx.
    + exists (x :: [mkEntry now (p_speaker p) (p_text p)]).
      rewrite (last_entry_split _ _ Hx) at 1. rewrite <- app_assoc.
      split; [reflexivity|]. rewrite length_app. cbn. lia.
    + apply last_entry_None in Hx. rewrite Hx. cbn.
      eexists; split; [reflexivity|]. cbn. lia.
Qed.

Lemma transcript_extends_reconcile (now : string) (es : list Parsed) (s : St) (c : bool) :
  transcript_extends (transcript s)
                     (transcript (fst (fold_left (processEntry now) es (s, c)))).
Proof.
  revert s c. induction es as [|p r IH]; intros s c; [apply transcript_extends_refl|].
  cbn [fold_left]. destruct (processEntry now (s, c) p) as [s1 c1] eqn:E.
  eapply transcript_extends_trans; [|apply IH].
  change s1 with (fst (s1, c1)). rewrite <- E. apply transcript_extends_processEntry.
Qed.

(** C7: a reconcile call keeps, in order, every entry but the last of the
    transcript it starts from, and never shortens it; every event but a
    clear and a meeting-changing navigation poll does the same, so only
    those two empty the transcript. *)
Theorem reconcile_frame :
  (forall (now : string) (es : list Parsed) (s : St),
     transcript_extends (transcript s) (transcript (fst (reconcile now es s))))
  /\ (forall (s : St) (ev : Event),
        resets_transcript s ev = false ->
        transcript_extends (transcript s) (transcript (step s ev))).
Proof.
  split.
  - intros now es s. apply transcript_extends_reconcile.
  - intros s ev Hr. destruct ev as [cands|now cands|pathname cands| | |];
      cbn [step resets_transcript] in *.
    + destruct (observer s); try apply transcript_extends_refl.
      unfold tryNarrowObserver. destruct (narrowObserverAttached s);
        [|destruct (getCaptionContainer cands)]; apply transcript_extends_refl.
    + unfold processCaptions.
      destruct (getCaptionContainer cands) as [c|]; [|apply transcript_extends_refl].
      pose proof (transcript_extends_reconcile now (parseCaptions c) s false) as X.
      unfold reconcile. destruct (fold_left (processEntry now) (parseCaptions c) (s, false))
        as [s1 [|]]; cbn [fst] in X; [|exact X].
      unfold scheduleStorageFlush. destruct (storageFlushTimer s1); exact X.
    + unfold handleNavigation.
      destruct (String.eqb (getMeetingId pathname) (meetingId s)); [|discriminate].
      apply transcript_extends_refl.
    + unfold storageFlushFire. destruct (storageFlushTimer s); apply transcript_extends_refl.
    + discriminate.
    + apply transcript_extends_refl.
Qed.

Lemma reconcile_frame_witness :
  resets_transcript fresh_state (DebounceFired "10:00:01" (one_block "Alice" "Hi")) = false
  /\ transcript_extends (transcript fresh_state)
       (transcript (step fresh_state (DebounceFired "10:00:01" (one_block "Alice" "Hi")))).
Proof.
  split; [reflexivity|]. apply (proj2 reconcile_frame). reflexivity.
Defined.

(* ─── Witnesses ───────────────────────────────────────────────────────── *)

Definition alice_said_hello : St :=
  run fresh_state [DebounceFired "10:00:01" (one_block "Alice" "Hello")].

Lemma continuation_law_witness :
  last_entry (transcript alice_said_hello) = Some (mkEntry "10:00:01" "Alice" "Hello")
  /\ speaker (mkEntry "10:00:01" "Alice" "Hello") = "Alice"
  /\ lastBySpeaker alice_said_hello !! "Alice" = Some "Hello"
  /\ let '(s', changed) :=
       reconcile "10:00:02" [mkParsed "Alice" "Hello world"] alice_said_hello in
     changed = true /\ length (transcript s') = length (transcript alice_said_hello)
     /\ removelast (transcript s') = removelast (transcript alice_said_hello)
     /\ last_entry (transcript s') = Some (mkEntry "10:00:02" "Alice" "Hello world").
Proof.
  split; [reflexivity|]. split; [reflexivity|]. split; [reflexivity|].
  apply (continuation_law alice_said_hello "10:00:02" "Alice"
           (mkEntry "10:00:01" "Alice" "Hello")); reflexivity.
Defined.

Lemma turn_break_append_witness :
  "Yo" <> ""
  /\ obj_get (lastBySpeaker alice_said_hello) "Bob" <> JString "Yo"
  /\ processEntry "10:00:02" (alice_said_hello, false) (mkParsed "Bob" "Yo") =
     (set_session (transcript alice_said_hello ++ [mkEntry "10:00:02" "Bob" "Yo"])%list
                  (obj_set "Bob" "Yo" (lastBySpeaker alice_said_hello)) alice_said_hello,
      true).
Proof.
  assert (H1 : "Yo" <> "") by discriminate.
  assert (H2 : obj_get (lastBySpeaker alice_said_hello) "Bob" <> JString "Yo")
    by (vm_compute; discriminate).
  split; [exact H1|]. split; [exact H2|].
  apply turn_break_append; [exact H1|exact H2|].
  right; right. intros x Hx. vm_compute in Hx. injection Hx as <-. cbn. discriminate.
Defined.


Definition malformed_region : Node :=
  Element [Element [Element [TextNode "raw"]]; TextNode "  stuff  "].

Lemma parse_fallback_witness :
  (forall b, In b (children malformed_region) ->
     length (children b) < 2
     \/ normalize (join " " (map textContent (tl (children b)))) = "")
  /\ parseCaptions malformed_region = [mkParsed "System" "raw stuff"].
Proof.
  assert (H : forall b, In b (children malformed_region) ->
     length (children b) < 2
     \/ normalize (join " " (map textContent (tl (children b)))) = "").
  { intros b [<-|[]]. left. cbn. lia. }
  split; [exact H|].
  apply (proj1 (parse_fallback malformed_region H)). vm_compute. discriminate.
Defined.

(* ─── Further properties of content.js and its popup ──────────────────── *)

(** Every character of [s] satisfies [P]. *)
Fixpoint all_chars (P : ascii -> bool) (s : string) : bool :=
  match s with
  | EmptyString => true
  | String c r => P c && all_chars P r
  end.

Definition starts_with_letter (s : string) : bool :=
  match s with
  | String c _ => is_letter c
  | EmptyString => false
  end.

Lemma letters_app (a r : string) :
  all_chars is_letter a = true -> starts_with_letter r = false ->
  letters (String.append a r) = (a, r).
Proof.
  induction a as [|c a IH]; simpl; intros Ha Hr.
  - destruct r as [|c r]; [reflexivity|]. simpl in Hr |- *.
    rewrite Hr. reflexivity.
  - apply andb_prop in Ha as [Hc Ha]. rewrite Hc, IH by assumption.
    reflexivity.
Qed.

Lemma match_here_cons (c : ascii) (r : string) :
  match_here (String c r) =
  if Ascii.eqb c "/" then match_here (String "/" r) else None.
Proof. destruct c as [[] [] [] [] [] [] [] []]; reflexivity. Qed.

Lemma match_dash {A : Type} (r : string) (k : string -> option A) :
  match r with String "-" r2 => k r2 | _ => None end =
  match r with
  | String c r2 => if Ascii.eqb c "-" then k r2 else None
  | EmptyString => None
  end.
Proof. destruct r as [|c r]; [reflexivity|]. destruct c as [[] [] [] [] [] [] [] []]; reflexivity. Qed.

Lemma letters_suffix (P : ascii -> bool) (r l r1 : string) :
  letters r = (l, r1) -> all_chars P r = true -> all_chars P r1 = true.
Proof.
  revert l. induction r as [|c r IH]; cbn; intros l E H.
  - injection E as <- <-. reflexivity.
  - destruct (is_letter c).
    + destruct (letters r) as [l' r'] eqn:E'. injection E as <- <-.
      apply andb_prop in H as [_ H]. exact (IH _ eq_refl H).
    + injection E as <- <-. exact H.
Qed.

Lemma match_here_no_dash (s : string) :
  all_chars (fun c => negb (Ascii.eqb c "-")) s = true -> match_here s = None.
Proof.
  destruct s as [|c r]; [reflexivity|]. intros H. rewrite match_here_cons.
  destruct (Ascii.eqb c "/"); [|reflexivity].
  apply andb_prop in H as [_ H]. cbn -[letters].
  destruct (letters r) as [l1 r1] eqn:E1.
  destruct (String.eqb l1 ""); [reflexivity|].
  rewrite match_dash. pose proof (letters_suffix _ _ _ _ E1 H) as H1.
  destruct r1 as [|d r2]; [reflexivity|]. cbn in H1.
  destruct (Ascii.eqb d "-"); [discriminate|reflexivity].
Qed.

Lemma regex_match_here (s m : string) :
  match_here s = Some m -> regex_match s = Some m.
Proof. intros H. destruct s; cbn [regex_match]; rewrite H; reflexivity. Qed.

(** getMeetingId on a Meet path: a path starting with `/xxx-yyyy-zzz`
    (three non-empty runs of letters, the last one not followed by a letter)
    has the code itself as meeting id, whatever follows it. *)
Theorem getMeetingId_meet_code (a b c rest : string) :
  a <> "" -> b <> "" -> c <> "" ->
  all_chars is_letter a = true -> all_chars is_letter b = true ->
  all_chars is_letter c = true -> starts_with_letter rest = false ->
  getMeetingId (String.append "/" (String.append a (String.append "-"
                 (String.append b (String.append "-" (String.append c rest))))))
  = String.append a (String.append "-" (String.append b (String.append "-" c))).
Proof.
  intros Ha Hb Hc La Lb Lc Hr. unfold getMeetingId.
  change (String.append "/" ?x) with (String "/" x).
  assert (E : match_here (String "/" (a +:+ "-" +:+ b +:+ "-" +:+ c +:+ rest))
              = Some (a +:+ "-" +:+ b +:+ "-" +:+ c)).
  { unfold match_here. cbv beta iota.
    rewrite letters_app by (assumption || reflexivity).
    destruct (String.eqb_spec a "") as [|_]; [contradiction|].
    change (String.append "-" ?x) with (String "-" x). cbv beta iota.
    rewrite letters_app by (assumption || reflexivity).
    destruct (String.eqb_spec b "") as [|_]; [contradiction|].
    change (String.append "-" ?x) with (String "-" x). cbv beta iota.
    rewrite letters_app by assumption.
    destruct (String.eqb_spec c "") as [|_]; [contradiction|].
    reflexivity. }
  rewrite (regex_match_here _ _ E). reflexivity.
Qed.

Lemma getMeetingId_meet_code_witness :
  "abc" <> "" /\ "defg" <> "" /\ "hij" <> ""
  /\ getMeetingId "/abc-defg-hij/extra" = "abc-defg-hij".
Proof.
  assert (Ha : "abc" <> "") by discriminate.
  assert (Hb : "defg" <> "") by discriminate.
  assert (Hc : "hij" <> "") by discriminate.
  split; [exact Ha|]. split; [exact Hb|]. split; [exact Hc|].
  exact (getMeetingId_meet_code "abc" "defg" "hij" "/extra" Ha Hb Hc
           eq_refl eq_refl eq_refl eq_refl).
Defined.

(** getMeetingId falls back to the whole path when the path has no `-`
    (so it never contains a meeting code). *)
Theorem getMeetingId_no_dash (pathname : string) :
  all_chars (fun c => negb (Ascii.eqb c "-")) pathname = true ->
  getMeetingId pathname = pathname.
Proof.
  intros H. unfold getMeetingId.
  assert (R : regex_match pathname = None).
  { induction pathname as [|c r IH]; cbn [regex_match].
    - reflexivity.
    - rewrite match_here_no_dash by exact H.
      apply IH. cbn in H. apply andb_prop in H as [_ H]. exact H. }
  rewrite R. reflexivity.
Qed.

Lemma getMeetingId_no_dash_witness :
  all_chars (fun c => negb (Ascii.eqb c "-")) "/landing" = true
  /\ getMeetingId "/landing" = "/landing".
Proof.
  split; [reflexivity|]. apply getMeetingId_no_dash. reflexivity.
Defined.

(** Flush then restore: the storage written by the flush timer, read back by
    init on a page whose path gives the same meeting id, restores the flushed
    transcript; the speaker cache starts empty. *)
Theorem flush_restore_roundtrip (s : St) (pathname : string) (cands : list (Node * string)) :
  storageFlushTimer s = true -> getMeetingId pathname = meetingId s ->
  let s0 := init pathname (storage (storageFlushFire s)) cands in
  transcript s0 = transcript s /\ lastBySpeaker s0 = ∅ /\ meetingId s0 = meetingId s.
Proof.
  intros Ht Hid. unfold storageFlushFire. rewrite Ht.
  unfold init, tryNarrowObserver. cbn [narrowObserverAttached storage
    current_meeting_id current_meeting_transcript].
  rewrite Hid, String.eqb_refl.
  destruct (getCaptionContainer cands); repeat split.
Qed.

Lemma flush_restore_roundtrip_witness :
  storageFlushTimer (scheduleStorageFlush alice_said_hello) = true
  /\ getMeetingId "/abc-defg-hij" = meetingId (scheduleStorageFlush alice_said_hello)
  /\ transcript (init "/abc-defg-hij"
        (storage (storageFlushFire (scheduleStorageFlush alice_said_hello))) [])
     = transcript (scheduleStorageFlush alice_said_hello).
Proof.
  assert (H1 : storageFlushTimer (scheduleStorageFlush alice_said_hello) = true)
    by reflexivity.
  assert (H2 : getMeetingId "/abc-defg-hij" = meetingId (scheduleStorageFlush alice_said_hello))
    by reflexivity.
  split; [exact H1|]. split; [exact H2|].
  exact (proj1 (flush_restore_roundtrip _ "/abc-defg-hij" [] H1 H2)).
Defined.

(** init restores nothing from another meeting: when the stored meeting id
    is not the one derived from the current path, the transcript starts
    empty (and so does the speaker cache). *)
Theorem init_rejects_other_meeting (pathname : string) (stored : Storage)
    (cands : list (Node * string)) :
  current_meeting_id stored <> Some (getMeetingId pathname) ->
  transcript (init pathname stored cands) = []
  /\ lastBySpeaker (init pathname stored cands) = ∅.
Proof.
  intros H. unfold init, tryNarrowObserver. cbn [narrowObserverAttached].
  destruct (current_meeting_id stored) as [i|]; [|destruct (getCaptionContainer cands); split; reflexivity].
  destruct (String.eqb_spec i (getMeetingId pathname)) as [->|_]; [contradiction|].
  destruct (current_meeting_transcript stored); destruct (getCaptionContainer cands);
    split; reflexivity.
Qed.

Lemma init_rejects_other_meeting_witness :
  current_meeting_id (mkStorage (Some [mkEntry "t" "Alice" "Hi"]) (Some "old-meet-ing"))
    <> Some (getMeetingId "/abc-defg-hij")
  /\ transcript (init "/abc-defg-hij"
       (mkStorage (Some [mkEntry "t" "Alice" "Hi"]) (Some "old-meet-ing")) []) = [].
Proof.
  assert (H : current_meeting_id (mkStorage (Some [mkEntry "t" "Alice" "Hi"]) (Some "old-meet-ing"))
                <> Some (getMeetingId "/abc-defg-hij")) by (vm_compute; discriminate).
  split; [exact H|]. exact (proj1 (init_rejects_other_meeting _ _ [] H)).
Defined.

(** getCaptionContainer returns the first candidate whose innerText is not
    blank, and nothing exactly when every candidate is blank. *)
Theorem getCaptionContainer_first_nonblank (cands : list (Node * string)) :
  (getCaptionContainer cands = None <->
   forall el t, In (el, t) cands -> js_trim t = "")
  /\ (forall el, getCaptionContainer cands = Some el ->
      exists pre t post, cands = (pre ++ (el, t) :: post)%list /\ js_trim t <> ""
        /\ forall e u, In (e, u) pre -> js_trim u = "").
Proof.
  induction cands as [|[e0 t0] r [IH1 IH2]]; cbn [getCaptionContainer].
  - split; [split; [intros _ el t []|reflexivity]|discriminate].
  - destruct (String.eqb_spec (js_trim t0) "") as [E0|E0]; cbn [negb].
    + split.
      * rewrite IH1. split.
        -- intros H el t [Ht|Ht]; [injection Ht as <- <-; exact E0|exact (H el t Ht)].
        -- intros H el t Ht. apply (H el t). right. exact Ht.
      * intros el Hel. destruct (IH2 el Hel) as (pre & t & post & -> & Ht & Hpre).
        exists ((e0, t0) :: pre), t, post. split; [reflexivity|]. split; [exact Ht|].
        intros e u [Hu|Hu]; [injection Hu as <- <-; exact E0|exact (Hpre e u Hu)].
    + split.
      * split; [discriminate|]. intros H. exfalso. apply E0. apply (H e0). left. reflexivity.
      * intros el Hel. injection Hel as <-. exists [], t0, r.
        split; [reflexivity|]. split; [exact E0|]. intros e u [].
Qed.

(** Events that change the meeting (a poll seeing a new meeting id). *)
Definition changes_meeting (s : St) (ev : Event) : bool :=
  match ev with
  | NavigationPoll pathname _ =>
      negb (String.eqb (getMeetingId pathname) (meetingId s))
  | _ => false
  end.

Fixpoint no_meeting_change (s : St) (evs : list Event) : bool :=
  match evs with
  | [] => true
  | ev :: r => negb (changes_meeting s ev) && no_meeting_change (step s ev) r
  end.

Lemma reconcile_keeps_rest (now : string) (es : list Parsed) (s : St) (c : bool) :
  let s' := fst (fold_left (processEntry now) es (s, c)) in
  meetingId s' = meetingId s /\ observer s' = observer s
  /\ storageFlushTimer s' = storageFlushTimer s
  /\ narrowObserverAttached s' = narrowObserverAttached s /\ storage s' = storage s.
Proof.
  revert s c. induction es as [|p r IH]; intros s c; [repeat split|].
  cbn [fold_left]. destruct (processEntry now (s, c) p) as [s1 c1] eqn:E.
  destruct (IH s1 c1) as (H1 & H2 & H3 & H4 & H5).
  assert (F : meetingId s1 = meetingId s /\ observer s1 = observer s
              /\ storageFlushTimer s1 = storageFlushTimer s
              /\ narrowObserverAttached s1 = narrowObserverAttached s /\ storage s1 = storage s).
  { change s1 with (fst (s1, c1)). rewrite <- E.
    destruct (processEntry_cases now s c p)
      as [[-> _] | [_ [_ [[_ ->]|[_ ->]]]]]; repeat split. }
  destruct F as (F1 & F2 & F3 & F4 & F5).
  cbn zeta. rewrite H1, H2, H3, H4, H5. auto.
Qed.

Lemma step_keeps_narrowed (s : St) (ev : Event) :
  narrowObserverAttached s = true -> changes_meeting s ev = false ->
  observer (step s ev) = observer s /\ narrowObserverAttached (step s ev) = true.
Proof.
  intros Hn Hc. destruct ev as [cands|now cands|pathname cands| | |]; cbn [step].
  - destruct (observer s) eqn:Eo; try (split; [congruence|exact Hn]).
    unfold tryNarrowObserver. rewrite Hn. split; [congruence|exact Hn].
  - unfold processCaptions. destruct (getCaptionContainer cands) as [c|];
      [|split; [reflexivity|exact Hn]].
    destruct (reconcile_keeps_rest now (parseCaptions c) s false) as (_ & H2 & H3 & H4 & _).
    unfold reconcile. destruct (fold_left (processEntry now) (parseCaptions c) (s, false))
      as [s1 [|]]; cbn [fst] in *.
    + unfold scheduleStorageFlush. destruct (storageFlushTimer s1);
        [|cbn [observer narrowObserverAttached]]; rewrite H2, H4; auto.
    + rewrite H2, H4. auto.
  - cbn [changes_meeting] in Hc. unfold handleNavigation.
    destruct (String.eqb (getMeetingId pathname) (meetingId s)); [|discriminate].
    split; [reflexivity|exact Hn].
  - unfold storageFlushFire. destruct (storageFlushTimer s); split; auto.
  - split; [reflexivity|exact Hn].
  - split; [reflexivity|exact Hn].
Qed.

(** Once the observer is narrowed to a caption container, it stays on that
    container (and the latch stays set) through every sequence of events that
    does not change the meeting: the narrowing happens at most once per
    meeting. *)
Theorem narrowed_observer_stays (s : St) (evs : list Event) :
  narrowObserverAttached s = true -> no_meeting_change s evs = true ->
  observer (run s evs) = observer s /\ narrowObserverAttached (run s evs) = true.
Proof.
  revert s. induction evs as [|ev r IH]; intros s Hn Hm; [split; [reflexivity|exact Hn]|].
  cbn [no_meeting_change] in Hm. apply andb_prop in Hm as [Hc Hm].
  apply negb_true_iff in Hc.
  destruct (step_keeps_narrowed s ev Hn Hc) as [O N].
  cbn [run fold_left]. destruct (IH (step s ev) N Hm) as [O' N'].
  unfold run in O'. rewrite O', O. split; [reflexivity|exact N'].
Qed.

Definition narrowed_state : St :=
  run fresh_state [BodyMutation (one_block "Alice" "Hi")].

Lemma narrowed_observer_stays_witness :
  narrowObserverAttached narrowed_state = true
  /\ no_meeting_change narrowed_state
       [BodyMutation (one_block "Bob" "Yo"); DebounceFired "t" (one_block "Bob" "Yo");
        NavigationPoll "/abc-defg-hij" (one_block "Bob" "Yo")] = true
  /\ observer (run narrowed_state
       [BodyMutation (one_block "Bob" "Yo"); DebounceFired "t" (one_block "Bob" "Yo");
        NavigationPoll "/abc-defg-hij" (one_block "Bob" "Yo")]) = observer narrowed_state.
Proof.
  assert (H1 : narrowObserverAttached narrowed_state = true) by reflexivity.
  assert (H2 : no_meeting_change narrowed_state
       [BodyMutation (one_block "Bob" "Yo"); DebounceFired "t" (one_block "Bob" "Yo");
        NavigationPoll "/abc-defg-hij" (one_block "Bob" "Yo")] = true) by (vm_compute; reflexivity).
  split; [exact H1|]. split; [exact H2|].
  exact (proj1 (narrowed_observer_stays _ _ H1 H2)).
Defined.

Lemma reconcile_changed_sticks (now : string) (es : list Parsed) (s : St) :
  snd (fold_left (processEntry now) es (s, true)) = true.
Proof.
  revert s. induction es as [|p r IH]; intros s; [reflexivity|].
  cbn [fold_left].
  destruct (processEntry_cases now s true p)
    as [[-> _] | [_ [_ [[_ ->]|[_ ->]]]]]; apply IH.
Qed.

Lemma reconcile_changed_if_new (now : string) (es : list Parsed) (s : St) (c : bool) (p : Parsed) :
  In p es -> p_text p <> "" -> lastBySpeaker s !! p_speaker p <> Some (p_text p) ->
  snd (fold_left (processEntry now) es (s, c)) = true.
Proof.
  revert s c. induction es as [|q r IH]; intros s c Hin Ht Hl; [destruct Hin|].
  cbn [fold_left].
  destruct (processEntry_cases now s c q)
    as [[-> Hq] | [_ [_ [[_ ->]|[_ ->]]]]]; try apply reconcile_changed_sticks.
  destruct Hin as [<-|Hin]; [destruct Hq; contradiction|].
  apply IH; assumption.
Qed.

(** processCaptions is a no-op when there is no caption container, and also
    when every pair parsed from the container is empty or equal to its
    speaker's cached text: transcript, cache and flush timer are untouched. *)
Theorem processCaptions_nothing_new (now : string) (cands : list (Node * string)) (s : St) :
  (getCaptionContainer cands = None -> processCaptions now cands s = s)
  /\ (forall c, getCaptionContainer cands = Some c ->
      (forall p, In p (parseCaptions c) ->
         p_text p = "" \/ lastBySpeaker s !! p_speaker p = Some (p_text p)) ->
      processCaptions now cands s = s).
Proof.
  unfold processCaptions. split; [intros ->; reflexivity|].
  intros c Hc Hall. rewrite Hc. unfold reconcile.
  rewrite reconcile_all_skip by exact Hall. reflexivity.
Qed.

Lemma processCaptions_nothing_new_witness :
  getCaptionContainer (one_block "Alice" "Hello") =
    Some (Element [Element [Element [TextNode "Alice"]; Element [TextNode "Hello"]]])
  /\ processCaptions "10:00:09" (one_block "Alice" "Hello") alice_said_hello = alice_said_hello.
Proof.
  assert (Hc : getCaptionContainer (one_block "Alice" "Hello") =
    Some (Element [Element [Element [TextNode "Alice"]; Element [TextNode "Hello"]]]))
    by reflexivity.
  split; [exact Hc|].
  apply (proj2 (processCaptions_nothing_new "10:00:09" _ alice_said_hello) _ Hc).
  intros p Hp. vm_compute in Hp. destruct Hp as [<-|[]]. right. reflexivity.
Defined.

(** processCaptions arms the storage flush timer as soon as one parsed pair
    is new (non-empty and different from its speaker's cached text), and it
    never writes the storage itself. *)
Theorem processCaptions_arms_flush (now : string) (cands : list (Node * string)) (s : St)
    (c : Node) (p : Parsed) :
  getCaptionContainer cands = Some c -> In p (parseCaptions c) -> p_text p <> "" ->
  lastBySpeaker s !! p_speaker p <> Some (p_text p) ->
  storageFlushTimer (processCaptions now cands s) = true
  /\ storage (processCaptions now cands s) = storage s.
Proof.
  intros Hc Hin Ht Hl. unfold processCaptions. rewrite Hc. unfold reconcile.
  pose proof (reconcile_changed_if_new now _ s false p Hin Ht Hl) as Hch.
  destruct (reconcile_keeps_rest now (parseCaptions c) s false) as (_ & _ & _ & _ & H5).
  destruct (fold_left (processEntry now) (parseCaptions c) (s, false)) as [s1 c1].
  cbn [snd fst] in *. subst c1. unfold scheduleStorageFlush.
  destruct (storageFlushTimer s1) eqn:Et; [split; [exact Et|exact H5]|].
  split; [reflexivity|exact H5].
Qed.

Lemma processCaptions_arms_flush_witness :
  getCaptionContainer (one_block "Bob" "Yo") =
    Some (Element [Element [Element [TextNode "Bob"]; Element [TextNode "Yo"]]])
  /\ storageFlushTimer (processCaptions "10:00:05" (one_block "Bob" "Yo") fresh_state) = true.
Proof.
  assert (Hc : getCaptionContainer (one_block "Bob" "Yo") =
    Some (Element [Element [Element [TextNode "Bob"]; Element [TextNode "Yo"]]]))
    by reflexivity.
  split; [exact Hc|].
  apply (processCaptions_arms_flush "10:00:05" _ fresh_state _ (mkParsed "Bob" "Yo") Hc).
  - vm_compute. left. reflexivity.
  - discriminate.
  - vm_compute. discriminate.
Defined.

(** Events of the caption path: mutations, debounced processing, and the
    popup's transcript request. *)
Definition is_caption_event (ev : Event) : bool :=
  match ev with
  | BodyMutation _ | DebounceFired _ _ | GetTranscriptMessage => true
  | _ => false
  end.

Lemma caption_event_keeps (s : St) (ev : Event) :
  storageFlushTimer s = true -> is_caption_event ev = true ->
  storage (step s ev) = storage s /\ storageFlushTimer (step s ev) = true
  /\ meetingId (step s ev) = meetingId s.
Proof.
  intros Ht He. destruct ev as [cands|now cands| | | |]; try discriminate; cbn [step].
  - destruct (observer s); auto.
    unfold tryNarrowObserver. destruct (narrowObserverAttached s); auto.
    destruct (getCaptionContainer cands); auto.
  - unfold processCaptions. destruct (getCaptionContainer cands) as [c|]; auto.
    destruct (reconcile_keeps_rest now (parseCaptions c) s false) as (H1 & _ & H3 & _ & H5).
    unfold reconcile. destruct (fold_left (processEntry now) (parseCaptions c) (s, false))
      as [s1 c1]. cbn [fst] in *.
    assert (T1 : storageFlushTimer s1 = true) by congruence.
    destruct c1; [unfold scheduleStorageFlush; rewrite T1|]; auto.
  - auto.
Qed.

(** The flush timer coalesces a burst: while it is armed, caption events
    never write the storage and leave it armed, and the single write when it
    fires carries the transcript as it is at that moment. *)
Theorem flush_coalesces (s : St) (evs : list Event) :
  storageFlushTimer s = true -> forallb is_caption_event evs = true ->
  let s' := run s evs in
  storage s' = storage s /\ storageFlushTimer s' = true
  /\ storage (storageFlushFire s') = mkStorage (Some (transcript s')) (Some (meetingId s)).
Proof.
  intros Ht Hevs.
  assert (K : storage (run s evs) = storage s /\ storageFlushTimer (run s evs) = true
              /\ meetingId (run s evs) = meetingId s).
  { revert s Ht. induction evs as [|ev r IH]; intros s Ht; [auto|].
    cbn [forallb] in Hevs. apply andb_prop in Hevs as [He Hr].
    destruct (caption_event_keeps s ev Ht He) as (A & B & C).
    cbn [run fold_left]. destruct (IH Hr (step s ev) B) as (A' & B' & C').
    unfold run in A', B', C'. rewrite A', C', A, C. auto. }
  destruct K as (A & B & C). cbn zeta. split; [exact A|]. split; [exact B|].
  unfold storageFlushFire. rewrite B. cbn [storage]. rewrite C. reflexivity.
Qed.

Lemma flush_coalesces_witness :
  storageFlushTimer (scheduleStorageFlush fresh_state) = true
  /\ storage (storageFlushFire (run (scheduleStorageFlush fresh_state)
       [DebounceFired "t1" (one_block "Alice" "Hi"); DebounceFired "t2" (one_block "Alice" "Hi there")]))
     = mkStorage (Some [mkEntry "t2" "Alice" "Hi there"]) (Some "abc-defg-hij").
Proof.
  assert (Ht : storageFlushTimer (scheduleStorageFlush fresh_state) = true) by reflexivity.
  split; [exact Ht|].
  rewrite (proj2 (proj2 (flush_coalesces _
    [DebounceFired "t1" (one_block "Alice" "Hi"); DebounceFired "t2" (one_block "Alice" "Hi there")]
    Ht eq_refl))).
  vm_compute. reflexivity.
Defined.

(** The "clear" message removes only the transcript key from storage (the
    meeting id stays), and since it also empties the speaker cache, a caption
    still on screen is captured again as the first entry by the next
    reconcile call. *)
Theorem clear_then_recapture (s : St) (now : string) (p : Parsed) :
  p_text p <> "" ->
  storage (clearTranscript s) = mkStorage None (current_meeting_id (storage s))
  /\ transcript (fst (reconcile now [p] (clearTranscript s)))
     = [mkEntry now (p_speaker p) (p_text p)].
Proof.
  intros Ht. split; [reflexivity|]. unfold reconcile. cbn [fold_left].
  destruct p as [spk txt]. cbn [p_speaker p_text] in *.
  rewrite processEntry_append; [reflexivity|exact Ht| |].
  - cbn. rewrite lookup_empty. discriminate.
  - unfold isContinuation. cbn [clearTranscript transcript last_entry].
    rewrite andb_false_r. reflexivity.
Qed.

Lemma clear_then_recapture_witness :
  p_text (mkParsed "Alice" "Hello") <> ""
  /\ transcript (fst (reconcile "10:00:05" [mkParsed "Alice" "Hello"]
                       (clearTranscript alice_said_hello)))
     = [mkEntry "10:00:05" "Alice" "Hello"].
Proof.
  assert (Ht : p_text (mkParsed "Alice" "Hello") <> "") by discriminate.
  split; [exact Ht|]. exact (proj2 (clear_then_recapture alice_said_hello "10:00:05" _ Ht)).
Defined.

(** A navigation poll that sees a new meeting does not cancel an armed flush
    timer; when it fires it writes the new meeting's id with its (empty)
    transcript, so the old transcript is never stored under the new id. *)
Theorem navigation_then_flush (pathname : string) (cands : list (Node * string)) (s : St) :
  getMeetingId pathname <> meetingId s -> storageFlushTimer s = true ->
  storage (storageFlushFire (handleNavigation pathname cands s))
  = mkStorage (Some []) (Some (getMeetingId pathname)).
Proof.
  intros Hid Ht. unfold handleNavigation.
  destruct (String.eqb_spec (getMeetingId pathname) (meetingId s)); [contradiction|].
  unfold tryNarrowObserver. cbn [narrowObserverAttached].
  destruct (getCaptionContainer cands); unfold storageFlushFire; cbn; rewrite Ht; reflexivity.
Qed.

Lemma navigation_then_flush_witness :
  getMeetingId "/xyz-uvwx-rst" <> meetingId (scheduleStorageFlush alice_said_hello)
  /\ storageFlushTimer (scheduleStorageFlush alice_said_hello) = true
  /\ storage (storageFlushFire (handleNavigation "/xyz-uvwx-rst" []
                                  (scheduleStorageFlush alice_said_hello)))
     = mkStorage (Some []) (Some "xyz-uvwx-rst").
Proof.
  assert (H1 : getMeetingId "/xyz-uvwx-rst" <> meetingId (scheduleStorageFlush alice_said_hello))
    by (vm_compute; discriminate).
  assert (H2 : storageFlushTimer (scheduleStorageFlush alice_said_hello) = true) by reflexivity.
  split; [exact H1|]. split; [exact H2|].
  exact (navigation_then_flush "/xyz-uvwx-rst" [] _ H1 H2).
Defined.

(* Whitespace in normalized text. *)

Definition ws_is_space (c : ascii) : bool := negb (is_ws c) || Ascii.eqb c " ".

Lemma all_chars_trim_start (P : ascii -> bool) (s : string) :
  all_chars P s = true -> all_chars P (trim_start s) = true.
Proof.
  induction s as [|c r IH]; cbn [trim_start]; intros H; [reflexivity|].
  destruct (is_ws c); [|exact H]. apply IH. cbn in H. apply andb_prop in H as [_ H]. exact H.
Qed.

Lemma all_chars_rev_str (P : ascii -> bool) (s acc : string) :
  all_chars P s = true -> all_chars P acc = true -> all_chars P (rev_str s acc) = true.
Proof.
  revert acc. induction s as [|c r IH]; intros acc Hs Ha; cbn [rev_str]; [exact Ha|].
  cbn in Hs. apply andb_prop in Hs as [Hc Hr]. apply IH; [exact Hr|].
  cbn. rewrite Hc, Ha. reflexivity.
Qed.

Lemma all_chars_js_trim (P : ascii -> bool) (s : string) :
  all_chars P s = true -> all_chars P (js_trim s) = true.
Proof.
  intros H. unfold js_trim.
  apply all_chars_rev_str; [|reflexivity]. apply all_chars_trim_start.
  apply all_chars_rev_str; [|reflexivity]. apply all_chars_trim_start. exact H.
Qed.

Lemma normalize_ws_is_space (s : string) : all_chars ws_is_space (normalize s) = true.
Proof.
  unfold normalize. apply all_chars_js_trim.
  assert (G : forall b, all_chars ws_is_space (collapse_ws b s) = true).
  { induction s as [|c r IH]; intros b; [reflexivity|].
    cbn [collapse_ws]. destruct (is_ws c) eqn:Ec.
    - destruct b; [apply IH|]. cbn [all_chars]. rewrite IH. reflexivity.
    - cbn [all_chars]. rewrite IH. unfold ws_is_space. rewrite Ec. reflexivity. }
  apply G.
Qed.

Lemma parseBlocks_wellformed (blocks : list Node) (p : Parsed) :
  In p (parseBlocks blocks) ->
  p_speaker p <> "" /\ p_text p <> "" /\ all_chars ws_is_space (p_text p) = true.
Proof.
  induction blocks as [|b r IH]; cbn [parseBlocks]; [intros []|].
  destruct (parseBlock b) as [q|] eqn:Eb; [|exact IH].
  intros [<-|Hp]; [|exact (IH Hp)].
  unfold parseBlock in Eb. destruct (children b) as [|sp [|y rest]]; try discriminate.
  destruct (String.eqb_spec (normalize (join " " (map textContent (y :: rest)))) "")
    as [|Hne]; [discriminate|].
  injection Eb as <-. cbn [p_speaker p_text].
  split; [|split; [exact Hne|apply normalize_ws_is_space]].
  destruct (String.eqb_spec (js_trim (textContent sp)) ""); [discriminate|assumption].
Qed.

(** Every pair that parseCaptions returns, including the "System" fallback,
    has a non-empty speaker and a non-empty text whose only whitespace
    characters are single spaces. *)
Theorem parseCaptions_wellformed (container : Node) (p : Parsed) :
  In p (parseCaptions container) ->
  p_speaker p <> "" /\ p_text p <> "" /\ all_chars ws_is_space (p_text p) = true.
Proof.
  unfold parseCaptions. destruct (parseBlocks (children container)) as [|q r] eqn:E.
  - destruct (String.eqb_spec (normalize (textContent container)) "") as [|Hne];
      [intros []|].
    intros [<-|[]]. cbn [p_speaker p_text].
    split; [discriminate|]. split; [exact Hne|apply normalize_ws_is_space].
  - rewrite <- E. apply parseBlocks_wellformed.
Qed.

Lemma parseCaptions_wellformed_witness :
  In (mkParsed "Alice" "Hello there") (parseCaptions (Element [Element [Element [TextNode "Alice"]; Element [TextNode " Hello   there "]]]))
  /\ p_speaker (mkParsed "Alice" "Hello there") <> ""
  /\ p_text (mkParsed "Alice" "Hello there") <> ""
  /\ all_chars ws_is_space (p_text (mkParsed "Alice" "Hello there")) = true.
Proof.
  assert (H : In (mkParsed "Alice" "Hello there")
                 (parseCaptions (Element [Element [Element [TextNode "Alice"]; Element [TextNode " Hello   there "]]])))
    by (vm_compute; left; reflexivity).
  split; [exact H|]. exact (parseCaptions_wellformed _ _ H).
Defined.

(** A transcript entry as the capture loop produces it. *)
Definition entry_wf (e : Entry) : bool :=
  negb (String.eqb (speaker e) "") && negb (String.eqb (text e) "")
  && all_chars ws_is_space (text e).

Lemma set_last_entry_wf (now txt : string) (tr : list Entry) :
  forallb entry_wf tr = true -> txt <> "" -> all_chars ws_is_space txt = true ->
  forallb entry_wf (set_last_entry now txt tr) = true.
Proof.
  intros Htr Hne Hw. induction tr as [|e r IH]; [reflexivity|].
  cbn [forallb] in Htr. apply andb_prop in Htr as [He Hr].
  destruct r as [|f r].
  - cbn. unfold entry_wf in *. cbn [speaker text] in *.
    apply andb_prop in He as [He _]. apply andb_prop in He as [He _].
    rewrite He, Hw. destruct (String.eqb_spec txt ""); [contradiction|reflexivity].
  - change (set_last_entry now txt (e :: f :: r)) with (e :: set_last_entry now txt (f :: r)).
    cbn [forallb]. rewrite He, (IH Hr). reflexivity.
Qed.

Lemma processEntry_wf (now : string) (acc : St * bool) (p : Parsed) :
  forallb entry_wf (transcript (fst acc)) = true ->
  p_speaker p <> "" -> all_chars ws_is_space (p_text p) = true ->
  forallb entry_wf (transcript (fst (processEntry now acc p))) = true.
Proof.
  destruct acc as [s c]. cbn [fst]. intros Htr Hs Hw.
  destruct (processEntry_cases now s c p)
    as [[-> _] | [Hne [_ [[_ ->]|[_ ->]]]]]; cbn [fst]; [exact Htr| |];
    unfold set_session; cbn [transcript].
  - apply set_last_entry_wf; assumption.
  - rewrite forallb_app, Htr. cbn. unfold entry_wf. cbn [speaker text].
    destruct (String.eqb_spec (p_speaker p) ""); [contradiction|].
    destruct (String.eqb_spec (p_text p) ""); [contradiction|]. rewrite Hw. reflexivity.
Qed.

Lemma reconcile_wf (now : string) (ps : list Parsed) (acc : St * bool) :
  forallb entry_wf (transcript (fst acc)) = true ->
  (forall p, In p ps -> p_speaker p <> "" /\ p_text p <> ""
                        /\ all_chars ws_is_space (p_text p) = true) ->
  forallb entry_wf (transcript (fst (fold_left (processEntry now) ps acc))) = true.
Proof.
  revert acc. induction ps as [|p r IH]; intros acc H Hp; [exact H|].
  cbn [fold_left]. apply IH.
  - destruct (Hp p (or_introl eq_refl)) as [Hs [_ Hw]]. apply processEntry_wf; assumption.
  - intros q Hq. apply Hp. right. exact Hq.
Qed.

(** Whatever events arrive, every entry of the transcript keeps a non-empty
    speaker and a non-empty text in which whitespace is only single spaces,
    provided the transcript started that way (as a restored one may not). *)
Theorem run_keeps_entries_wellformed (s : St) (evs : list Event) :
  forallb entry_wf (transcript s) = true ->
  forallb entry_wf (transcript (run s evs)) = true.
Proof.
  unfold run. revert s. induction evs as [|ev r IH]; intros s H; [exact H|].
  cbn [fold_left]. apply IH. destruct ev; cbn [step].
  - destruct (observer s); [exact H| |exact H].
    unfold tryNarrowObserver. destruct (narrowObserverAttached s); [exact H|].
    destruct (getCaptionContainer cands); exact H.
  - unfold processCaptions. destruct (getCaptionContainer cands) as [c|]; [|exact H].
    pose proof (reconcile_wf now (parseCaptions c) (s, false) H
                  (parseCaptions_wellformed c)) as Hr.
    unfold reconcile. destruct (fold_left (processEntry now) (parseCaptions c) (s, false))
      as [s' ch]. destruct ch; [unfold scheduleStorageFlush; destruct (storageFlushTimer s'); exact Hr|exact Hr].
  - unfold handleNavigation. destruct (String.eqb (getMeetingId pathname) (meetingId s));
      [exact H|].
    unfold tryNarrowObserver. cbn [narrowObserverAttached].
    destruct (getCaptionContainer cands); reflexivity.
  - unfold storageFlushFire. destruct (storageFlushTimer s); exact H.
  - reflexivity.
  - exact H.
Qed.

Lemma run_keeps_entries_wellformed_witness :
  forallb entry_wf (transcript fresh_state) = true
  /\ forallb entry_wf (transcript (run fresh_state
       [DebounceFired "10:00:01" (one_block "Alice" "Hello")]))
     = true.
Proof.
  assert (H : forallb entry_wf (transcript fresh_state) = true) by (vm_compute; reflexivity).
  split; [exact H|]. exact (run_keeps_entries_wellformed fresh_state _ H).
Defined.

(* ─── Popup: formatting and file naming (popup.js) ────────────────────── *)

(** `(e) => `[${e.ts}] ${e.speaker}: ${e.text}`` *)
Definition formatLine (e : Entry) : string :=
  "[" ++ ts e ++ "] " ++ speaker e ++ ": " ++ text e.

(** `transcript.map(formatLine).join("\n")` *)
Definition formatTranscript (tr : list Entry) : string :=
  join (String "010" EmptyString) (map formatLine tr).

(** `s.split("\n")` *)
Fixpoint split_nl (s : string) : list string :=
  match s with
  | EmptyString => [EmptyString]
  | String c r =>
      if Ascii.eqb c "010" then EmptyString :: split_nl r
      else match split_nl r with
           | [] => [String c EmptyString]
           | x :: xs => String c x :: xs
           end
  end.

Definition no_nl (c : ascii) : bool := negb (Ascii.eqb c "010").

Definition entry_single_line (e : Entry) : bool :=
  all_chars no_nl (ts e) && all_chars no_nl (speaker e) && all_chars no_nl (text e).

(** `.replace(/[:.]/g, "-")` *)
Definition replace_colon_dot (s : string) : string :=
  string_of_list_ascii
    (map (fun c => if (Ascii.eqb c ":" || Ascii.eqb c ".")%bool then "-"%char else c)
         (list_ascii_of_string s)).

(** `new Date().toISOString().replace(/[:.]/g, "-").slice(0, 19)` *)
Definition fileStamp (iso : string) : string := substring 0 19 (replace_colon_dot iso).

Lemma append_nil_r (s : string) : s ++ "" = s.
Proof.
  induction s as [|c r IH]; [reflexivity|].
  change (String c r ++ "") with (String c (r ++ "")). rewrite IH. reflexivity.
Qed.

Lemma split_nl_ne (s : string) : split_nl s <> [].
Proof.
  destruct s as [|c r]; cbn; [discriminate|].
  destruct (Ascii.eqb c "010"); [discriminate|]. destruct (split_nl r); discriminate.
Qed.

Lemma split_nl_app (a b : string) :
  all_chars no_nl a = true ->
  split_nl (a ++ b) = match split_nl b with
                      | [] => [a]
                      | x :: xs => (a ++ x) :: xs
                      end.
Proof.
  induction a as [|c r IH]; intros H.
  - change ("" ++ b) with b. destruct (split_nl b) eqn:E; [|reflexivity].
    exfalso. exact (split_nl_ne b E).
  - cbn in H. apply andb_prop in H as [Hc Hr]. unfold no_nl in Hc.
    change (String c r ++ b) with (String c (r ++ b)). cbn [split_nl].
    destruct (Ascii.eqb c "010"); [discriminate|].
    rewrite (IH Hr). destruct (split_nl b) eqn:E; [|reflexivity].
    exfalso. exact (split_nl_ne b E).
Qed.

Lemma split_nl_single (a : string) : all_chars no_nl a = true -> split_nl a = [a].
Proof.
  intros H. rewrite <- (append_nil_r a) at 1. rewrite (split_nl_app a "" H).
  cbn. rewrite append_nil_r. reflexivity.
Qed.

Lemma all_chars_app (P : ascii -> bool) (a b : string) :
  all_chars P (a ++ b) = all_chars P a && all_chars P b.
Proof.
  induction a as [|c r IH]; [reflexivity|].
  change (String c r ++ b) with (String c (r ++ b)). cbn [all_chars].
  rewrite IH. apply andb_assoc.
Qed.

Lemma formatLine_single (e : Entry) :
  entry_single_line e = true -> all_chars no_nl (formatLine e) = true.
Proof.
  unfold entry_single_line, formatLine. intros H.
  apply andb_prop in H as [H Hx]. apply andb_prop in H as [Ht Hs].
  rewrite !all_chars_app, Ht, Hs, Hx. reflexivity.
Qed.

(** When no timestamp, speaker or text holds a line break, the text the popup
    shows and downloads has exactly one line per transcript entry: splitting
    it at line breaks gives back the formatted entries in order. *)
Theorem formatTranscript_lines (tr : list Entry) :
  tr <> [] -> forallb entry_single_line tr = true ->
  split_nl (formatTranscript tr) = map formatLine tr.
Proof.
  intros Hne Hall. unfold formatTranscript.
  induction tr as [|e r IH]; [contradiction|].
  cbn [forallb] in Hall. apply andb_prop in Hall as [He Hr].
  destruct r as [|f r].
  - cbn [map join]. apply split_nl_single, formatLine_single, He.
  - change (join (String "010" "") (map formatLine (e :: f :: r)))
      with (formatLine e ++ (String "010" "" ++ join (String "010" "") (map formatLine (f :: r)))).
    rewrite (split_nl_app _ _ (formatLine_single e He)).
    change (String "010" "" ++ ?x) with (String "010" x).
    change (split_nl (String "010" ?x)) with ("" :: split_nl x).
    rewrite (IH ltac:(discriminate) Hr). cbv iota. rewrite append_nil_r. reflexivity.
Qed.

Lemma formatTranscript_lines_witness :
  let tr := [mkEntry "10:00:01" "Alice" "Hello"; mkEntry "10:00:04" "Bob" "Hi"] in
  tr <> [] /\ forallb entry_single_line tr = true
  /\ split_nl (formatTranscript tr) = map formatLine tr.
Proof.
  intros tr.
  assert (H1 : tr <> []) by discriminate.
  assert (H2 : forallb entry_single_line tr = true) by (vm_compute; reflexivity).
  split; [exact H1|]. split; [exact H2|]. exact (formatTranscript_lines tr H1 H2).
Defined.

Lemma substring_prefix_all (P : ascii -> bool) (n : nat) (s : string) :
  all_chars P s = true ->
  all_chars P (substring 0 n s) = true /\ String.length (substring 0 n s) <= n.
Proof.
  revert n. induction s as [|c r IH]; intros n H.
  - destruct n; split; cbn; (reflexivity || lia).
  - destruct n as [|n]; [split; cbn; (reflexivity || lia)|].
    cbn in H. apply andb_prop in H as [Hc Hr].
    cbn [substring all_chars String.length]. rewrite Hc.
    destruct (IH n Hr) as [A B]. split; [exact A|lia].
Qed.

(** The date stamp put in the download file name
    ("Meet-Transcript-<stamp>.txt") carries no ':' and no '.', whatever the
    date string, and is at most 19 characters long. *)
Theorem fileStamp_safe (iso : string) :
  all_chars (fun c => negb (Ascii.eqb c ":" || Ascii.eqb c ".")) (fileStamp iso) = true
  /\ String.length (fileStamp iso) <= 19.
Proof.
  assert (Hr : all_chars (fun c => negb (Ascii.eqb c ":" || Ascii.eqb c "."))
                         (replace_colon_dot iso) = true).
  { unfold replace_colon_dot. induction iso as [|c r IH]; [reflexivity|].
    cbn [list_ascii_of_string map string_of_list_ascii all_chars].
    rewrite IH. destruct (Ascii.eqb c ":" || Ascii.eqb c ".")%bool eqn:E.
    - reflexivity.
    - rewrite E. reflexivity. }
  unfold fileStamp. apply substring_prefix_all. exact Hr.
Qed.

(** A caption line of the speaker "__proto__" is never cached: while
    lastBySpeaker has no own property "__proto__" (as in every state the
    script reaches), such a pair with non-empty text that does not begin
    with "[object Object]" is appended on every pass, sets [changed], and
    leaves lastBySpeaker as it was. *)
Theorem proto_speaker_always_appends (now t : string) (s : St) (c : bool) :
  lastBySpeaker s !! "__proto__" = None -> t <> "" ->
  startsWith t "[object Object]" = false ->
  processEntry now (s, c) (mkParsed "__proto__" t) =
    (set_session (transcript s ++ [mkEntry now "__proto__" t])%list (lastBySpeaker s) s,
     true).
Proof.
  intros Hn Ht Hp. rewrite processEntry_append; [|exact Ht|rewrite Hn; discriminate|].
  - unfold obj_set. rewrite Hn. reflexivity.
  - unfold isContinuation, obj_get. rewrite Hn.
    change (object_prototype_member "__proto__") with (JObject "[object Object]").
    cbn [js_truthy js_ToString]. rewrite Hp, andb_false_r. reflexivity.
Qed.

Lemma proto_speaker_always_appends_witness :
  lastBySpeaker alice_said_hello !! "__proto__" = None /\ "hi" <> ""
  /\ startsWith "hi" "[object Object]" = false
  /\ snd (processEntry "10:00:02" (alice_said_hello, false) (mkParsed "__proto__" "hi")) = true.
Proof.
  assert (H1 : lastBySpeaker alice_said_hello !! "__proto__" = None) by (vm_compute; reflexivity).
  assert (H2 : "hi" <> "") by discriminate.
  assert (H3 : startsWith "hi" "[object Object]" = false) by reflexivity.
  split; [exact H1|]. split; [exact H2|]. split; [exact H3|].
  rewrite (proto_speaker_always_appends "10:00:02" "hi" alice_said_hello false H1 H2 H3).
  reflexivity.
Defined.
